(** * The schema-graph printer of [cmd/internal/printer/printer.go]

    A shallow embedding of [Config.Print], [Fprint] and [Config.node]:
    for every type of a graph the printer builds a fields table and an
    edges table with the tablewriter library, renders them into a local
    buffer, indents the buffer by one tab and writes it to the sink.

    Go strings are byte strings: they are modelled by [string], whose
    characters are the 256 values of [ascii]. *)

From Stdlib Require Import ZArith Bool List String Ascii Lia.
From Stdlib Require Import Numbers.DecimalString Numbers.DecimalPos.
Import ListNotations.

Open Scope string_scope.

(* ================================================================== *)
(** ** Bytes and strings *)

Definition nl : ascii := "010"%char.
Definition tab : ascii := "009"%char.

(** The one-byte strings "\n" and "\t", and the replacement "\n\t". *)
Definition nl_s : string := String nl "".
Definition tab_s : string := String tab "".
Definition nl_tab : string := String nl (String tab "").

(** [strings.ReplaceAll s old new] for a pattern [old] of one byte, the
    only way the printer calls it: every occurrence of the byte is
    replaced, left to right. *)
Fixpoint ReplaceAll (s : string) (old : ascii) (new : string) : string :=
  match s with
  | "" => ""
  | String c s' =>
      if Ascii.eqb c old then new ++ ReplaceAll s' old new
      else String c (ReplaceAll s' old new)
  end.

(** The last line of the source: the buffer with every newline followed
    by a tab. *)
Definition indent (b : string) : string := ReplaceAll b nl nl_tab.

(** A text made of lines, each one closed by a newline. *)
Definition unlines (ls : list string) : string :=
  String.concat "" (map (fun l => l ++ nl_s) ls).

(** [no_nl s]: the byte "\n" does not occur in [s]. *)
Fixpoint no_nl (s : string) : bool :=
  match s with
  | "" => true
  | String c s' => negb (Ascii.eqb c nl) && no_nl s'
  end.

(** [strings.Split s "\n"]: the segments between the newlines of [s]. *)
Fixpoint split_nl (s : string) : list string :=
  match s with
  | "" => [""]
  | String c s' =>
      if Ascii.eqb c nl then "" :: split_nl s'
      else match split_nl s' with
           | l :: ls => String c l :: ls
           | [] => [String c ""]
           end
  end.

Definition starts_with_tab (s : string) : bool :=
  match s with
  | String c _ => Ascii.eqb c tab
  | "" => false
  end.

(** The last byte of a string, and the one before it. *)
Fixpoint last_byte (s : string) : option ascii :=
  match s with
  | "" => None
  | String c "" => Some c
  | String _ s' => last_byte s'
  end.

Fixpoint ends_with (suffix s : string) : bool :=
  if String.eqb suffix s then true
  else match s with
       | "" => false
       | String _ s' => ends_with suffix s'
       end.

(* ================================================================== *)
(** ** [strconv] and [fmt] *)

(** [strconv.FormatBool]. *)
Definition FormatBool (b : bool) : string := if b then "true" else "false".

(** [strconv.Itoa] on a Go [int]. *)
Definition Itoa (n : Z) : string := NilZero.string_of_int (Z.to_int n).

Definition minInt : Z := - 2 ^ 63.
Definition maxInt : Z := 2 ^ 63 - 1.

Definition is_digit (c : ascii) : bool :=
  (48 <=? nat_of_ascii c)%nat && (nat_of_ascii c <=? 57)%nat.

(** The value of a run of decimal digits, [None] when a byte is not a
    digit. *)
Fixpoint digits_value (s : string) (acc : Z) : option Z :=
  match s with
  | "" => Some acc
  | String c s' =>
      if is_digit c
      then digits_value s' (10 * acc + (Z.of_nat (nat_of_ascii c) - 48))%Z
      else None
  end.

(** [strconv.Atoi]: an optional sign, at least one decimal digit, and a
    value that fits a 64-bit [int]; [None] stands for a non-nil error. *)
Definition Atoi (s : string) : option Z :=
  let '(neg, body) :=
    match s with
    | String "-"%char r => (true, r)
    | String "+"%char r => (false, r)
    | _ => (false, s)
    end in
  match body with
  | "" => None
  | _ =>
      match digits_value body 0 with
      | Some n =>
          let v := if neg then (- n)%Z else n in
          if ((minInt <=? v) && (v <=? maxInt))%Z then Some v else None
      | None => None
      end
  end.

(** The Go values the printer hands to [fmt.Sprint]. *)
Inductive value : Type :=
| VBool (b : bool)
| VInt (n : Z)
| VString (s : string)
| VStringer (s : string)        (* a value with a String method, by its result *)
| VList (l : list string).      (* a slice of strings *)

(** [fmt.Sprint] of one operand. *)
Definition Sprint (v : value) : string :=
  match v with
  | VBool b => FormatBool b
  | VInt n => Itoa n
  | VString s => s
  | VStringer s => s
  | VList l => "[" ++ String.concat " " l ++ "]"
  end.

(* ================================================================== *)
(** ** The schema graph ([entc/gen]) *)

Module gen.

(** Modelled from the spec: [field.TypeInfo], the declared type of a
    field; the printer reads it only through its string form. *)
Record TypeInfo : Type := { TypeInfo_String : string }.

(** Modelled from the spec: [gen.Field] is not among the sources. The
    attributes are the ones of the spec's data model under the names the
    printer looks up by reflection ("Name" and the header's columns);
    [Comment] is the dedicated accessor. The validators attribute is
    only stringified, so it is kept as a Go value. *)
Record Field : Type := {
  Field_Name : string;
  Field_Type : TypeInfo;
  Field_Unique : bool;
  Field_Optional : bool;
  Field_Nillable : bool;
  Field_Default : bool;
  Field_UpdateDefault : bool;
  Field_Immutable : bool;
  Field_StructTag : string;
  Field_Validators : value;
  Field_Comment : string
}.

(** Modelled from the spec: the relation kind of an edge, known to the
    printer by its string form only ([e.Rel.Type.String()]). *)
Record Rel : Type := { Rel_String : string }.

(** Modelled from the spec: [gen.Edge]. [Edge_Type_Name] is the name of
    the target type ([e.Type.Name]), [Edge_IsInverse] the result of the
    accessor [IsInverse], [Edge_Comment] the one of [Comment]. *)
Record Edge : Type := {
  Edge_Name : string;
  Edge_Type_Name : string;
  Edge_IsInverse : bool;
  Edge_Inverse : string;
  Edge_Rel_Type : Rel;
  Edge_Unique : bool;
  Edge_Optional : bool;
  Edge_Comment : string
}.

(** Modelled from the spec: [gen.Type], a name, an optional identifier
    field ([ID], a pointer that may be nil), the declared fields and the
    edges, both in declaration order. *)
Record Type_ : Type := {
  Name : string;
  ID : option Field;
  Fields : list Field;
  Edges : list Edge
}.

(** Modelled from the spec: [gen.Graph], the types in stored order. *)
Record Graph : Type := { Nodes : list Type_ }.

End gen.
Import gen.

(* ================================================================== *)
(** ** Reflection over a field *)

(** A struct value as [reflect] sees it: its fields, by name, in
    declaration order. *)
Definition Struct : Type := list (string * value).

(** [reflect.ValueOf( *f )]. *)
Definition ValueOf (f : Field) : Struct :=
  [ ("Name", VString (Field_Name f));
    ("Type", VStringer (TypeInfo_String (Field_Type f)));
    ("Unique", VBool (Field_Unique f));
    ("Optional", VBool (Field_Optional f));
    ("Nillable", VBool (Field_Nillable f));
    ("Default", VBool (Field_Default f));
    ("UpdateDefault", VBool (Field_UpdateDefault f));
    ("Immutable", VBool (Field_Immutable f));
    ("StructTag", VString (Field_StructTag f));
    ("Validators", Field_Validators f) ].

(** [Value.FieldByNameFunc]: the field whose name satisfies [match_],
    when exactly one does; [None] is the zero Value, on which
    [Interface] panics. *)
Definition FieldByNameFunc (v : Struct) (match_ : string -> bool) : option value :=
  match filter (fun kv => match_ (fst kv)) v with
  | [kv] => Some (snd kv)
  | _ => None
  end.

(* ================================================================== *)
(** ** The table library ([olekukonko/tablewriter]) *)

Module tw.

Inductive Align : Type := AlignLeft | AlignRight.

(** The symbol sets of [tw.NewSymbols]. *)
Inductive BorderStyle : Type := StyleDefault | StyleASCII.

(** [tw.CellConfig], as far as the printer sets it: the padding of a
    cell and whether its text is reformatted. *)
Record CellConfig : Type := {
  Padding_Left : string;
  Padding_Right : string;
  AutoFormat : bool
}.

Definition Space : string := " ".

End tw.

(** What a table holds between [NewWriter] and [Render]: the header, the
    rows appended so far, and the options set. [row_align] is
    [Row.Alignment.PerColumn], which the library reads by column
    position. *)
Record Table : Type := {
  header : list string;
  rows : list (list string);
  row_align : list tw.Align;
  header_config : option tw.CellConfig;
  symbols : tw.BorderStyle
}.

(** The library is a third party's. Its two fallible operations are
    taken as they are: [append_fails tbl row] says whether [Append]
    reports an error for [row], and [render tbl] gives the bytes that
    [Render] writes to the table's writer together with whether it
    reports an error. *)
Record Library : Type := {
  append_fails : Table -> list string -> bool;
  render : Table -> string * bool
}.

Definition NewWriter : Table :=
  {| header := []; rows := []; row_align := [];
     header_config := None; symbols := tw.StyleDefault |}.

Definition WithHeaderConfig (c : tw.CellConfig) (tbl : Table) : Table :=
  {| header := header tbl; rows := rows tbl; row_align := row_align tbl;
     header_config := Some c; symbols := symbols tbl |}.

Definition WithRendition (s : tw.BorderStyle) (tbl : Table) : Table :=
  {| header := header tbl; rows := rows tbl; row_align := row_align tbl;
     header_config := header_config tbl; symbols := s |}.

Definition WithRowAlignmentConfig (perColumn : list tw.Align) (tbl : Table) : Table :=
  {| header := header tbl; rows := rows tbl; row_align := perColumn;
     header_config := header_config tbl; symbols := symbols tbl |}.

Definition Header (h : list string) (tbl : Table) : Table :=
  {| header := h; rows := rows tbl; row_align := row_align tbl;
     header_config := header_config tbl; symbols := symbols tbl |}.

(** [table.Append row]: [None] for a non-nil error, else the table with
    the row added after the ones it has. *)
Definition Append (L : Library) (tbl : Table) (row : list string) : option Table :=
  if append_fails L tbl row then None
  else Some {| header := header tbl; rows := (rows tbl ++ [row])%list;
               row_align := row_align tbl;
               header_config := header_config tbl; symbols := symbols tbl |}.

Definition Render (L : Library) (tbl : Table) : string * bool := render L tbl.

(** The alignment the library applies to column [j] of the rows: the
    entry of [PerColumn] at position [j], when there is one. *)
Definition column_align (tbl : Table) (j : nat) : option tw.Align :=
  nth_error (row_align tbl) j.

(* ================================================================== *)
(** ** The printer *)

(** The sink of a [Config]: the chunks handed to its [Write], oldest
    first. The printer discards what [Write] returns. *)
Definition Sink : Type := list string.

Definition WriteString (p : Sink) (s : string) : Sink := (p ++ [s])%list.

Definition sink_bytes (p : Sink) : string := String.concat "" p.

Definition fields_header : list string :=
  ["Field"; "Type"; "Unique"; "Optional"; "Nillable"; "Default";
   "UpdateDefault"; "Immutable"; "StructTag"; "Validators"; "Comment"].

Definition edges_header : list string :=
  ["Edge"; "Type"; "Inverse"; "BackRef"; "Relation"; "Unique"; "Optional";
   "Comment"].

(** The options both tables get (source lines 51-66 and 106-119). *)
Definition table_options (tbl : Table) : Table :=
  WithRendition tw.StyleASCII
    (WithHeaderConfig
       {| tw.Padding_Left := tw.Space; tw.Padding_Right := tw.Space;
          tw.AutoFormat := false |} tbl).

(** The closure of lines 76-79: the first field is mapped from "Name"
    to "Field". *)
Definition column_match (i : nat) (name : string) : bool :=
  (String.eqb name "Name" && Nat.eqb i 0)
  || String.eqb name (nth i fields_header "").

(** [row[i]] for [i < len(row)-1]: the struct field named by column [i]
    of the header ("Name" counts for column 0), stringified. The
    default stands for the panic of [Interface] on a zero Value. *)
Definition cell (f : Field) (i : nat) : string :=
  match FieldByNameFunc (ValueOf f) (column_match i) with
  | Some field => Sprint field
  | None => ""
  end.

(** The decision of lines 81-86 for one cell. *)
Definition align_of (s : string) : tw.Align :=
  match Atoi s with
  | Some _ => tw.AlignRight
  | None => tw.AlignLeft
  end.

(** The cells of the inner loop: columns 0 to [len(header) - 2]. *)
Definition cells (f : Field) : list string :=
  map (cell f) (seq 0 (List.length fields_header - 1)).

(** The row of a field: the looked-up cells, then the comment. *)
Definition field_row (f : Field) : list string :=
  (cells f ++ [Field_Comment f])%list.

(** What one row adds to [alignment]: one decision per looked-up cell. *)
Definition row_decisions (f : Field) : list tw.Align := map align_of (cells f).

(** The loop of lines 72-98 from the state [(table, alignment)]: [None]
    when an [Append] reports an error (the function returns). *)
Fixpoint fields_loop (L : Library) (fs : list Field) (table : Table)
    (alignment : list tw.Align) : option (Table * list tw.Align) :=
  match fs with
  | [] => Some (table, alignment)
  | f :: fs' =>
      let row := field_row f in
      let alignment := (alignment ++ row_decisions f)%list in
      match Append L table row with
      | None => None
      | Some table =>
          fields_loop L fs' (WithRowAlignmentConfig alignment table) alignment
      end
  end.

(** [append(id, t.Fields...)]. *)
Definition row_fields (t : Type_) : list Field :=
  (match ID t with
   | Some f => [f]
   | None => []
   end ++ Fields t)%list.

(** The fields table when the loop is left, ready for [Render]. *)
Definition fields_table (L : Library) (t : Type_) : option Table :=
  match fields_loop L (row_fields t) (Header fields_header (table_options NewWriter)) [] with
  | Some (table, _) => Some table
  | None => None
  end.

Definition edge_row (e : Edge) : list string :=
  [ Edge_Name e;
    Edge_Type_Name e;
    FormatBool (Edge_IsInverse e);
    Edge_Inverse e;
    Rel_String (Edge_Rel_Type e);
    FormatBool (Edge_Unique e);
    FormatBool (Edge_Optional e);
    Edge_Comment e ].

(** The loop of lines 124-139 from the state [(table, hasEdges)]. *)
Fixpoint edges_loop (L : Library) (es : list Edge) (table : Table)
    (hasEdges : bool) : option (Table * bool) :=
  match es with
  | [] => Some (table, hasEdges)
  | e :: es' =>
      match Append L table (edge_row e) with
      | None => None
      | Some table => edges_loop L es' table true
      end
  end.

Definition edges_table (L : Library) (t : Type_) : option (Table * bool) :=
  edges_loop L (Edges t) (Header edges_header (table_options NewWriter)) false.

(** [Config.node]: the sink after the call. Every [return] of the
    source leaves the sink as it was; the buffer [b] is written on the
    last line only. *)
Definition node (L : Library) (p : Sink) (t : Type_) : Sink :=
  let b := Name t ++ ":" ++ nl_s in
  match fields_table L t with
  | None => p
  | Some table =>
      let '(out, err) := Render L table in
      let b := b ++ out in
      if err then p else
      match edges_table L t with
      | None => p
      | Some (table, hasEdges) =>
          let '(b, err) :=
            if hasEdges
            then let '(out, err) := Render L table in (b ++ out, err)
            else (b, false) in
          if err then p
          else WriteString p (indent b ++ nl_s)
      end
  end.

(** [Config.Print]: the types in the graph's order. *)
Definition Print (L : Library) (p : Sink) (g : Graph) : Sink :=
  fold_left (node L) (Nodes g) p.

(** [Fprint w g]. *)
Definition Fprint (L : Library) (w : Sink) (g : Graph) : Sink := Print L w g.

(* ================================================================== *)
(** ** A table library to run the printer with *)

(** A stand-in for the library on examples: a plain ASCII grid, with the
    two failures switched by [reject_row] and [reject_table]. It does
    not claim the library's layout byte for byte; it keeps what the
    examples rest on: the rendering is a sequence of lines, each closed
    by a newline, and a failed [Render] may already have written some. *)
Module grid.

Fixpoint fill (c : ascii) (n : nat) : string :=
  match n with
  | O => ""
  | S n' => String c (fill c n')
  end.

Definition width (tbl : Table) (j : nat) : nat :=
  fold_left Nat.max
    (map (fun r => String.length (nth j r "")) (header tbl :: rows tbl)) 0%nat.

Definition widths (tbl : Table) : list nat :=
  map (width tbl) (seq 0 (List.length (header tbl))).

(** A horizontal rule, and the rule as a line. *)
Definition rule (ws : list nat) : string :=
  "+" ++ String.concat "" (map (fun w => fill "-" (w + 2) ++ "+") ws).

Definition border (ws : list nat) : string := rule ws ++ nl_s.

Definition pad (a : option tw.Align) (w : nat) (s : string) : string :=
  let gap := fill " " (w - String.length s) in
  match a with
  | Some tw.AlignRight => gap ++ s
  | _ => s ++ gap
  end.

Definition line (aligns : nat -> option tw.Align) (ws : list nat)
    (r : list string) : string :=
  "|" ++ String.concat ""
           (map (fun j => " " ++ pad (aligns j) (nth j ws 0%nat) (nth j r "") ++ " |")
                (seq 0 (List.length ws)))
      ++ nl_s.

Definition text (tbl : Table) : string :=
  let ws := widths tbl in
  border ws ++ line (fun _ => None) ws (header tbl) ++ border ws
    ++ String.concat "" (map (line (column_align tbl) ws) (rows tbl))
    ++ match rows tbl with
       | [] => ""
       | _ => border ws
       end.

Definition lib (reject_row : list string -> bool) (reject_table : Table -> bool)
    : Library :=
  {| append_fails := fun _ row => reject_row row;
     render := fun tbl =>
       if reject_table tbl then (border (widths tbl), true)
       else (text tbl, false) |}.

(** The library that never fails. *)
Definition plain : Library := lib (fun _ => false) (fun _ => false).

(** A library that refuses a row with a newline in a cell. *)
Definition no_multiline : Library :=
  lib (existsb (fun c => negb (no_nl c))) (fun _ => false).

(** A library whose [Render] fails on a table
    of more than [n] rows. *)
Definition at_most (n : nat) : Library :=
  lib (fun _ => false) (fun tbl => (n <? List.length (rows tbl))%nat).

End grid.

(* ================================================================== *)
(** ** Sample schema *)

Module sample.

Definition mkField (name type : string) : Field :=
  {| Field_Name := name; Field_Type := {| TypeInfo_String := type |};
     Field_Unique := false; Field_Optional := false; Field_Nillable := false;
     Field_Default := false; Field_UpdateDefault := false;
     Field_Immutable := false; Field_StructTag := "";
     Field_Validators := VInt 0; Field_Comment := "" |}.

Definition id : Field := mkField "id" "int".
Definition name : Field := mkField "name" "string".
Definition age : Field := mkField "age" "int".

Definition posts : Edge :=
  {| Edge_Name := "posts"; Edge_Type_Name := "Post"; Edge_IsInverse := false;
     Edge_Inverse := ""; Edge_Rel_Type := {| Rel_String := "O2M" |};
     Edge_Unique := false; Edge_Optional := true; Edge_Comment := "" |}.

Definition author : Edge :=
  {| Edge_Name := "author"; Edge_Type_Name := "User"; Edge_IsInverse := true;
     Edge_Inverse := "posts"; Edge_Rel_Type := {| Rel_String := "M2O" |};
     Edge_Unique := true; Edge_Optional := false; Edge_Comment := "" |}.

Definition User : Type_ :=
  {| Name := "User"; ID := Some id; Fields := [name; age]; Edges := [posts] |}.

Definition Post : Type_ :=
  {| Name := "Post"; ID := Some id; Fields := []; Edges := [author] |}.

(** A type with neither fields nor edges nor identifier. *)
Definition Empty : Type_ :=
  {| Name := "Empty"; ID := None; Fields := []; Edges := [] |}.

(** A type with an identifier and nothing else. *)
Definition Bare : Type_ :=
  {| Name := "Bare"; ID := Some id; Fields := []; Edges := [] |}.

(** Two fields whose names differ in whether they parse as integers. *)
Definition Mixed : Type_ :=
  {| Name := "Mixed"; ID := None;
     Fields := [mkField "1" "int"; mkField "label" "string"]; Edges := [] |}.

(** A type with a comment that spans two lines. *)
Definition Noted : Type_ :=
  {| Name := "Noted"; ID := None;
     Fields :=
       [ {| Field_Name := "n"; Field_Type := {| TypeInfo_String := "int" |};
            Field_Unique := false; Field_Optional := false;
            Field_Nillable := false; Field_Default := false;
            Field_UpdateDefault := false; Field_Immutable := false;
            Field_StructTag := ""; Field_Validators := VInt 0;
            Field_Comment := "first" ++ nl_s ++ "second" |} ];
     Edges := [] |}.

Definition graph : Graph := {| Nodes := [User; Post; Empty] |}.

End sample.

(** The tables the printer builds for the samples with [grid.plain]. *)
Definition table_or_new (o : option Table) : Table :=
  match o with
  | Some tbl => tbl
  | None => NewWriter
  end.

Module tables.

Definition User_fields : Table :=
  Eval vm_compute in table_or_new (fields_table grid.plain sample.User).

Definition User_edges : Table :=
  Eval vm_compute in
    table_or_new (option_map fst (edges_table grid.plain sample.User)).

Definition Mixed_fields : Table :=
  Eval vm_compute in table_or_new (fields_table grid.plain sample.Mixed).

Definition Empty_fields : Table :=
  Eval vm_compute in table_or_new (fields_table grid.plain sample.Empty).

End tables.

(* ================================================================== *)
(** ** Blocks and failures *)

(** The block of a type whose tables rendered to [out]: lines 50 and
    147 of the source. *)
Definition block (name out : string) : string :=
  indent (name ++ ":" ++ nl_s ++ out) ++ nl_s.

(** What the renderings add to the buffer of a type that succeeds: the
    fields table, then the edges table if [hasEdges]. *)
Definition tables_text (L : Library) (ft et : Table) (hasEdges : bool) : string :=
  fst (Render L ft) ++ if hasEdges then fst (Render L et) else "".

(** The four ways a type fails: an [Append] or the [Render] of either
    table reports an error. *)
Inductive node_failure (L : Library) (t : Type_) : Prop :=
| fields_append_failure :
    fields_table L t = None -> node_failure L t
| fields_render_failure (ft : Table) :
    fields_table L t = Some ft -> snd (Render L ft) = true -> node_failure L t
| edges_append_failure :
    edges_table L t = None -> node_failure L t
| edges_render_failure (et : Table) :
    edges_table L t = Some (et, true) -> snd (Render L et) = true ->
    node_failure L t.

(** The lines of a block: a first line, then lines that begin with a
    tab; no line holds a newline, so that the lines are the segments
    that splitting at the newlines gives (the last segment, after the
    final newline, is empty). *)
Definition tab_indented (blk : string) : Prop :=
  exists first rest,
    blk = unlines (first :: rest)
    /\ no_nl first = true
    /\ Forall (fun l => starts_with_tab l = true /\ no_nl l = true) rest
    /\ split_nl blk = (first :: rest ++ [""])%list.

(** Whether [node] reaches its last line for a type: no [Append] and
    no [Render] it calls reports an error. *)
Definition node_ok (L : Library) (t : Type_) : bool :=
  match fields_table L t with
  | None => false
  | Some ft =>
      negb (snd (Render L ft))
      && match edges_table L t with
         | None => false
         | Some (et, hasEdges) => negb (hasEdges && snd (Render L et))
         end
  end.

(** The chunk [node] writes on its last line, from the tables it built. *)
Definition type_block (L : Library) (t : Type_) : string :=
  match fields_table L t, edges_table L t with
  | Some ft, Some (et, hasEdges) =>
      block (Name t) (tables_text L ft et hasEdges)
  | _, _ => ""
  end.

(** The number of newline bytes of a string. *)
Fixpoint count_nl (s : string) : nat :=
  match s with
  | "" => 0
  | String c s' => (if Ascii.eqb c nl then 1 else 0) + count_nl s'
  end.

(* ================================================================== *)
(** ** Strings *)

Section StringFacts.

Lemma sapp_assoc (a b c : string) : (a ++ b) ++ c = a ++ (b ++ c).
Proof. induction a as [|x a IH]; simpl; [reflexivity | now rewrite IH]. Qed.

Lemma sapp_nil_r (a : string) : a ++ "" = a.
Proof. induction a as [|x a IH]; simpl; [reflexivity | now rewrite IH]. Qed.

Lemma ReplaceAll_app (a b : string) (old : ascii) (new : string) :
  ReplaceAll (a ++ b) old new = ReplaceAll a old new ++ ReplaceAll b old new.
Proof.
  induction a as [|x a IH]; simpl; [reflexivity|].
  destruct (Ascii.eqb x old); rewrite IH; [now rewrite sapp_assoc | reflexivity].
Qed.

Lemma indent_app (a b : string) : indent (a ++ b) = indent a ++ indent b.
Proof. apply ReplaceAll_app. Qed.

Lemma indent_nl : indent nl_s = nl_tab.
Proof. reflexivity. Qed.

Lemma unlines_cons (l : string) (ls : list string) :
  unlines (l :: ls) = l ++ nl_s ++ unlines ls.
Proof.
  unfold unlines. simpl. destruct (map (fun l0 => l0 ++ nl_s) ls) eqn:E.
  - reflexivity.
  - simpl. now rewrite sapp_assoc.
Qed.

Lemma split_nl_line (l s : string) :
  no_nl l = true -> split_nl (l ++ String nl s) = l :: split_nl s.
Proof.
  induction l as [|c l IH]; simpl; [reflexivity|].
  intros H. apply andb_true_iff in H. destruct H as [Hc Hl].
  apply negb_true_iff in Hc. now rewrite Hc, (IH Hl).
Qed.

(** Splitting a text of newline-free lines gives the lines back. *)
Lemma split_unlines (ls : list string) :
  Forall (fun l => no_nl l = true) ls ->
  split_nl (unlines ls) = (ls ++ [""])%list.
Proof.
  induction 1 as [|l ls Hl _ IH]; [reflexivity|].
  rewrite unlines_cons.
  change (nl_s ++ unlines ls) with (String nl (unlines ls)).
  now rewrite (split_nl_line _ _ Hl), IH.
Qed.

Lemma indent_lines_aux (b : string) :
  exists first rest,
    indent b ++ nl_s = unlines (first :: rest)
    /\ no_nl first = true
    /\ Forall (fun l => starts_with_tab l = true /\ no_nl l = true) rest.
Proof.
  induction b as [|c b IH].
  - exists "", []. repeat split; constructor.
  - destruct IH as (first & rest & E & Hf & Hr).
    unfold indent in *. simpl. destruct (Ascii.eqb c nl) eqn:Hc.
    + exists "", (String tab first :: rest). repeat split.
      * rewrite unlines_cons. simpl. rewrite E.
        rewrite (unlines_cons (String tab first)), (unlines_cons first).
        reflexivity.
      * constructor; [|exact Hr]. split; [reflexivity | exact Hf].
    + exists (String c first), rest. repeat split.
      * simpl. rewrite E. now rewrite !unlines_cons.
      * simpl. now rewrite Hc, Hf.
      * exact Hr.
Qed.

(** An indented buffer closed by a newline is a first line followed by
    tab-led lines. *)
Lemma indent_lines (b : string) : tab_indented (indent b ++ nl_s).
Proof.
  destruct (indent_lines_aux b) as (first & rest & E & Hf & Hr).
  exists first, rest. repeat split; [exact E | exact Hf | exact Hr |].
  rewrite E. apply (split_unlines (first :: rest)).
  constructor; [exact Hf|].
  apply Forall_impl with (2 := Hr). now intros l [_ H].
Qed.

Lemma indent_no_nl (s : string) : no_nl s = true -> indent s = s.
Proof.
  unfold indent. induction s as [|c s IH]; simpl; [reflexivity|].
  intros H. apply andb_true_iff in H. destruct H as [Hc Hs].
  apply negb_true_iff in Hc. now rewrite Hc, (IH Hs).
Qed.

(** The bytes of a sink that received more chunks. *)
Lemma sink_bytes_app (p q : Sink) :
  sink_bytes (p ++ q)%list = sink_bytes p ++ sink_bytes q.
Proof.
  unfold sink_bytes. induction p as [|x p IH]; [reflexivity|].
  destruct p as [|y p].
  - simpl. destruct q; [now rewrite sapp_nil_r | reflexivity].
  - change (String.concat "" (((x :: y :: p) ++ q)%list))
      with (x ++ String.concat "" ((y :: p) ++ q)%list).
    rewrite IH. change (String.concat "" (x :: y :: p))
      with (x ++ String.concat "" (y :: p)).
    now rewrite sapp_assoc.
Qed.

Lemma last_byte_nonempty (c : ascii) (s : string) : last_byte (String c s) <> None.
Proof.
  revert c. induction s as [|a s IH]; intros c; [discriminate|].
  change (last_byte (String c (String a s))) with (last_byte (String a s)).
  apply IH.
Qed.

Lemma last_byte_cons (c : ascii) (s : string) :
  last_byte (String c s) = match last_byte s with Some d => Some d | None => Some c end.
Proof.
  destruct s as [|a s]; [reflexivity|].
  change (last_byte (String c (String a s))) with (last_byte (String a s)).
  destruct (last_byte (String a s)) eqn:E; [reflexivity|].
  now apply last_byte_nonempty in E.
Qed.

Lemma last_byte_app (a b : string) :
  last_byte (a ++ b) =
  match last_byte b with Some d => Some d | None => last_byte a end.
Proof.
  induction a as [|x a IH]; cbn [append].
  - now destruct (last_byte b).
  - rewrite !last_byte_cons, IH. now destruct (last_byte b).
Qed.

(** The last byte of an indented buffer: a tab where the buffer ended
    with a newline, else the buffer's own last byte. *)
Lemma last_byte_indent (b : string) :
  last_byte (indent b) =
  match last_byte b with
  | Some c => if Ascii.eqb c nl then Some tab else Some c
  | None => None
  end.
Proof.
  induction b as [|c b IH]; [reflexivity|].
  unfold indent in *. cbn [ReplaceAll]. rewrite last_byte_cons.
  destruct (Ascii.eqb c nl) eqn:Hc.
  - change (nl_tab ++ ReplaceAll b nl nl_tab)
      with (String nl (String tab (ReplaceAll b nl nl_tab))).
    rewrite !last_byte_cons, IH.
    destruct (last_byte b) as [d|]; [now destruct (Ascii.eqb d nl) | now rewrite Hc].
  - rewrite last_byte_cons, IH.
    destruct (last_byte b) as [d|]; [now destruct (Ascii.eqb d nl) | now rewrite Hc].
Qed.

Lemma ends_with_intro (suffix pre : string) : ends_with suffix (pre ++ suffix) = true.
Proof.
  induction pre as [|c pre IH]; simpl.
  - destruct suffix; simpl; [reflexivity|].
    now rewrite Ascii.eqb_refl, String.eqb_refl.
  - destruct (String.eqb suffix (String c (pre ++ suffix))); [|exact IH].
    destruct suffix; reflexivity.
Qed.

Lemma ends_with_elim (suffix s : string) :
  ends_with suffix s = true -> exists pre, s = pre ++ suffix.
Proof.
  induction s as [|c s IH]; simpl.
  - destruct suffix; simpl; [now exists "" | discriminate].
  - destruct (String.eqb suffix (String c s)) eqn:E.
    + intros _. apply String.eqb_eq in E. exists "". now rewrite E.
    + intros H. destruct (IH H) as [pre Hp].
      exists (String c pre). simpl. now rewrite Hp.
Qed.

End StringFacts.

(* ================================================================== *)
(** ** The two loops *)

Section Loops.

Variable L : Library.

Lemma Append_inv (tbl tbl' : Table) (row : list string) :
  Append L tbl row = Some tbl' ->
  append_fails L tbl row = false
  /\ header tbl' = header tbl
  /\ rows tbl' = (rows tbl ++ [row])%list
  /\ row_align tbl' = row_align tbl.
Proof.
  unfold Append. destruct (append_fails L tbl row); [discriminate|].
  intros H. injection H as <-. repeat split.
Qed.

Lemma fields_loop_app (pre post : list Field) :
  forall tbl al,
    fields_loop L (pre ++ post) tbl al =
    match fields_loop L pre tbl al with
    | Some (tbl', al') => fields_loop L post tbl' al'
    | None => None
    end.
Proof.
  induction pre as [|f pre IH]; intros tbl al; simpl; [reflexivity|].
  destruct (Append L tbl (field_row f)); [apply IH | reflexivity].
Qed.

(** What the fields loop leaves behind when no [Append] failed. *)
Lemma fields_loop_spec (fs : list Field) :
  forall tbl al tbl' al',
    fields_loop L fs tbl al = Some (tbl', al') ->
    header tbl' = header tbl
    /\ rows tbl' = (rows tbl ++ map field_row fs)%list
    /\ al' = (al ++ flat_map row_decisions fs)%list
    /\ (fs <> [] -> row_align tbl' = al')
    /\ (fs = [] -> tbl' = tbl).
Proof.
  induction fs as [|f fs IH]; intros tbl al tbl' al'; simpl.
  - intros H. injection H as <- <-.
    rewrite !app_nil_r. repeat split. now intros [].
  - destruct (Append L tbl (field_row f)) as [tbl1|] eqn:EA; [|discriminate].
    apply Append_inv in EA. destruct EA as (_ & Hh & Hr & _).
    intros H. apply IH in H. simpl in H.
    destruct H as (H1 & H2 & H3 & H4 & H5).
    rewrite H1, H2, H3, Hh, Hr, <- !app_assoc. repeat split.
    + intros _. destruct fs as [|g fs].
      * rewrite (H5 eq_refl). cbn [flat_map row_align WithRowAlignmentConfig].
        now rewrite app_nil_r.
      * rewrite H4 by discriminate. now rewrite H3, <- app_assoc.
    + discriminate.
Qed.

Lemma fields_loop_total :
  (forall tbl row, append_fails L tbl row = false) ->
  forall fs tbl al, exists r, fields_loop L fs tbl al = Some r.
Proof.
  intros Hok fs. induction fs as [|f fs IH]; intros tbl al; simpl.
  - now eexists.
  - unfold Append. rewrite Hok. apply IH.
Qed.

(** What the edges loop leaves behind when no [Append] failed. *)
Lemma edges_loop_spec (es : list Edge) :
  forall tbl he tbl' he',
    edges_loop L es tbl he = Some (tbl', he') ->
    header tbl' = header tbl
    /\ rows tbl' = (rows tbl ++ map edge_row es)%list
    /\ he' = match es with [] => he | _ :: _ => true end.
Proof.
  induction es as [|e es IH]; intros tbl he tbl' he'; simpl.
  - intros H. injection H as <- <-. rewrite app_nil_r. repeat split.
  - destruct (Append L tbl (edge_row e)) as [tbl1|] eqn:EA; [|discriminate].
    apply Append_inv in EA. destruct EA as (_ & Hh & Hr & _).
    intros H. apply IH in H. destruct H as (H1 & H2 & H3).
    rewrite H1, H2, Hh, Hr, <- app_assoc. repeat split.
    rewrite H3. now destruct es.
Qed.

Lemma edges_loop_total :
  (forall tbl row, append_fails L tbl row = false) ->
  forall es tbl he, exists r, edges_loop L es tbl he = Some r.
Proof.
  intros Hok es. induction es as [|e es IH]; intros tbl he; simpl.
  - now eexists.
  - unfold Append. rewrite Hok. apply IH.
Qed.

Lemma fields_table_spec (t : Type_) (ft : Table) :
  fields_table L t = Some ft ->
  header ft = fields_header
  /\ rows ft = map field_row (row_fields t)
  /\ row_align ft = flat_map row_decisions (row_fields t).
Proof.
  unfold fields_table.
  destruct (fields_loop L (row_fields t) _ []) as [[tbl al]|] eqn:E; [|discriminate].
  intros H. injection H as <-.
  apply fields_loop_spec in E. destruct E as (H1 & H2 & H3 & H4 & H5).
  repeat split; [exact H1 | exact H2 |].
  destruct (row_fields t) as [|f fs] eqn:Ef.
  - now rewrite (H5 eq_refl).
  - rewrite H4 by discriminate. exact H3.
Qed.

Lemma edges_table_spec (t : Type_) (et : Table) (he : bool) :
  edges_table L t = Some (et, he) ->
  header et = edges_header
  /\ rows et = map edge_row (Edges t)
  /\ he = match Edges t with [] => false | _ :: _ => true end.
Proof.
  unfold edges_table. intros H. apply edges_loop_spec in H. exact H.
Qed.

(* ------------------------------------------------------------------ *)
(** ** One type *)

(** A type whose tables are built and rendered without error gets one
    block. *)
Lemma node_success (p : Sink) (t : Type_) (ft et : Table) (he : bool) :
  fields_table L t = Some ft ->
  snd (Render L ft) = false ->
  edges_table L t = Some (et, he) ->
  he && snd (Render L et) = false ->
  node L p t = WriteString p (block (Name t) (tables_text L ft et he)).
Proof.
  intros Hf Hr He Hre. unfold node, block, tables_text. rewrite Hf.
  destruct (Render L ft) as [o1 e1]. simpl in Hr. subst e1. rewrite He.
  destruct he.
  - destruct (Render L et) as [o2 e2]. simpl in Hre. subst e2. simpl.
    now rewrite !sapp_assoc.
  - simpl. now rewrite !sapp_assoc, sapp_nil_r.
Qed.

(** A failed type leaves the sink as it was. *)
Lemma node_failure_sink (p : Sink) (t : Type_) :
  node_failure L t -> node L p t = p.
Proof.
  intros H. unfold node. destruct H as [Hf | ft Hf Hr | He | et He Hr].
  - now rewrite Hf.
  - rewrite Hf. destruct (Render L ft) as [o e]. simpl in Hr. now subst e.
  - destruct (fields_table L t) as [ft|]; [|reflexivity].
    destruct (Render L ft) as [o e]. destruct e; [reflexivity|]. now rewrite He.
  - destruct (fields_table L t) as [ft|]; [|reflexivity].
    destruct (Render L ft) as [o e]. destruct e; [reflexivity|]. rewrite He.
    destruct (Render L et) as [o2 e2]. simpl in Hr. now subst e2.
Qed.

(** Every type either fails or has its tables built and rendered. *)
Lemma node_failure_dec (t : Type_) :
  node_failure L t
  \/ exists ft et he,
       fields_table L t = Some ft /\ snd (Render L ft) = false
       /\ edges_table L t = Some (et, he) /\ he && snd (Render L et) = false.
Proof.
  destruct (fields_table L t) as [ft|] eqn:Hf;
    [|left; now apply fields_append_failure].
  destruct (snd (Render L ft)) eqn:Hr;
    [left; now apply (fields_render_failure L t ft)|].
  destruct (edges_table L t) as [[et he]|] eqn:He;
    [|left; now apply edges_append_failure].
  destruct (he && snd (Render L et)) eqn:Hre.
  - left. apply andb_true_iff in Hre. destruct Hre as [-> Hre].
    now apply (edges_render_failure L t et).
  - right. now exists ft, et, he.
Qed.

(** [node] only adds to the sink: what it writes does not depend on
    what the sink holds. *)
Lemma node_frame (p : Sink) (t : Type_) : node L p t = (p ++ node L [] t)%list.
Proof.
  destruct (node_failure_dec t) as [H | (ft & et & he & Hf & Hr & He & Hre)].
  - rewrite !(node_failure_sink _ _ H). now rewrite app_nil_r.
  - rewrite !(node_success _ _ _ _ _ Hf Hr He Hre). reflexivity.
Qed.

(** [node] writes at most one chunk, and that chunk is a block. *)
Lemma node_writes (t : Type_) :
  node L [] t = [] \/ exists out, node L [] t = [block (Name t) out].
Proof.
  destruct (node_failure_dec t) as [H | (ft & et & he & Hf & Hr & He & Hre)].
  - left. now apply node_failure_sink.
  - right. eexists. now apply (node_success [] _ _ _ _ Hf Hr He Hre).
Qed.

(* ------------------------------------------------------------------ *)
(** ** The graph *)

Lemma Print_nil (p : Sink) : Print L p {| Nodes := [] |} = p.
Proof. reflexivity. Qed.

Lemma Print_cons (p : Sink) (t : Type_) (ts : list Type_) :
  Print L p {| Nodes := t :: ts |} = Print L (node L p t) {| Nodes := ts |}.
Proof. reflexivity. Qed.

Lemma Print_app (p : Sink) (ts1 ts2 : list Type_) :
  Print L p {| Nodes := ts1 ++ ts2 |} =
  Print L (Print L p {| Nodes := ts1 |}) {| Nodes := ts2 |}.
Proof. unfold Print. simpl. apply fold_left_app. Qed.

(** The sink after [Print]: what it held, then the chunks of the types
    in order. *)
Lemma Print_flat_map (g : Graph) :
  forall p, Print L p g = (p ++ flat_map (node L []) (Nodes g))%list.
Proof.
  destruct g as [ts]. unfold Print. simpl.
  induction ts as [|t ts IH]; intros p; simpl.
  - now rewrite app_nil_r.
  - rewrite IH, (node_frame p t). now rewrite <- app_assoc.
Qed.

End Loops.

(* ================================================================== *)
(** ** Rows *)

(** The reflective lookup finds every column of the inner loop: the
    default of [cell] is never taken. *)
Lemma lookup_found (f : Field) (i : nat) :
  (i < List.length fields_header - 1)%nat ->
  exists v, FieldByNameFunc (ValueOf f) (column_match i) = Some v.
Proof.
  intros H. simpl in H.
  do 10 (destruct i as [|i]; [eexists; reflexivity|]). lia.
Qed.

(** The row of a field, cell by cell. *)
Lemma field_row_cells (f : Field) :
  field_row f =
  [ Field_Name f;
    TypeInfo_String (Field_Type f);
    FormatBool (Field_Unique f);
    FormatBool (Field_Optional f);
    FormatBool (Field_Nillable f);
    FormatBool (Field_Default f);
    FormatBool (Field_UpdateDefault f);
    FormatBool (Field_Immutable f);
    Field_StructTag f;
    Sprint (Field_Validators f);
    Field_Comment f ].
Proof. reflexivity. Qed.

Lemma FormatBool_literal (b : bool) : FormatBool b = "true" \/ FormatBool b = "false".
Proof. destruct b; [now left | now right]. Qed.

Lemma row_decisions_length (f : Field) : List.length (row_decisions f) = 10%nat.
Proof. reflexivity. Qed.

(** A cell is right-aligned exactly when it parses as an integer. *)
Lemma align_of_right (s : string) :
  align_of s = tw.AlignRight <-> exists n, Atoi s = Some n.
Proof.
  unfold align_of. destruct (Atoi s) as [n|]; split.
  - intros _. now exists n.
  - reflexivity.
  - discriminate.
  - intros [n H]. discriminate.
Qed.

(* ================================================================== *)
(** ** The fields table *)

(** C1: for a type with an identifier field and N other fields, the
    fields table that [Print] renders for it has the fields header and
    exactly N+1 body rows: the identifier's row first, then the rows of
    the declared fields in declaration order. Whenever the type gets a
    block, the block holds the rendering of that table right after the
    name line. *)
Theorem fields_table_rows (L : Library) (t : Type_) (idf : Field) (ft : Table) :
  ID t = Some idf ->
  fields_table L t = Some ft ->
  header ft = fields_header
  /\ rows ft = field_row idf :: map field_row (Fields t)
  /\ List.length (rows ft) = S (List.length (Fields t))
  /\ forall p,
       node L p t = p
       \/ exists more,
            node L p t =
            WriteString p (block (Name t) (fst (Render L ft) ++ more)).
Proof.
  intros Hid Hft.
  destruct (fields_table_spec L t ft Hft) as (Hh & Hr & _).
  assert (Hrf : row_fields t = idf :: Fields t)
    by (unfold row_fields; now rewrite Hid).
  rewrite Hrf in Hr. simpl in Hr.
  repeat split; [exact Hh | exact Hr | |].
  - rewrite Hr. simpl. now rewrite length_map.
  - intros p.
    destruct (node_failure_dec L t) as [H | (ft' & et & he & Hf & Hre & He & Hree)].
    + left. now apply node_failure_sink.
    + right. rewrite Hft in Hf. injection Hf as <-.
      eexists. now apply (node_success L p t ft et he).
Qed.

Lemma fields_table_rows_witness :
  header tables.User_fields = fields_header
  /\ rows tables.User_fields
     = field_row sample.id :: map field_row [sample.name; sample.age]
  /\ List.length (rows tables.User_fields) = 3%nat
  /\ forall p,
       node grid.plain p sample.User = p
       \/ exists more,
            node grid.plain p sample.User =
            WriteString p
              (block "User" (fst (Render grid.plain tables.User_fields) ++ more)).
Proof.
  exact (fields_table_rows grid.plain sample.User sample.id tables.User_fields
           eq_refl eq_refl).
Defined.

(** With a library that accepts every row the fields table is always
    built. *)
Lemma fields_table_total (L : Library) (t : Type_) :
  (forall tbl row, append_fails L tbl row = false) ->
  exists ft, fields_table L t = Some ft.
Proof.
  intros Hok. unfold fields_table.
  destruct (fields_loop_total L Hok (row_fields t)
              (Header fields_header (table_options NewWriter)) [])
    as [[tbl al] E].
  rewrite E. now exists tbl.
Qed.

(* ================================================================== *)
(** ** The edges table *)

(** C2: for a type with zero edges no edges table is rendered, not
    even its header: the block is the name line and the rendering of
    the fields table, nothing else. In particular for a type with no
    field at all (the identifier counts as a field, as in C1) and zero
    edges, that fields table has its header and no body row. *)
Theorem no_edges_no_edges_table (L : Library) (p : Sink) (t : Type_) (ft : Table) :
  Edges t = [] ->
  fields_table L t = Some ft ->
  snd (Render L ft) = false ->
  node L p t = WriteString p (block (Name t) (fst (Render L ft)))
  /\ header ft = fields_header
  /\ (ID t = None -> Fields t = [] ->
      rows ft = [] /\ ft = Header fields_header (table_options NewWriter)).
Proof.
  intros He Hft Hr. repeat split.
  - assert (Het : edges_table L t
                  = Some (Header edges_header (table_options NewWriter), false))
      by (unfold edges_table; now rewrite He).
    rewrite (node_success L p t ft _ false Hft Hr Het eq_refl).
    unfold tables_text. now rewrite sapp_nil_r.
  - now destruct (fields_table_spec L t ft Hft) as (Hh & _).
  - destruct (fields_table_spec L t ft Hft) as (_ & Hrows & _).
    rewrite Hrows. unfold row_fields. now rewrite H, H0.
  - unfold fields_table, row_fields in Hft. rewrite H, H0 in Hft.
    simpl in Hft. now injection Hft as <-.
Qed.

Lemma no_edges_no_edges_table_witness :
  node grid.plain [] sample.Empty
  = WriteString [] (block "Empty" (fst (Render grid.plain tables.Empty_fields)))
  /\ header tables.Empty_fields = fields_header
  /\ rows tables.Empty_fields = [].
Proof.
  destruct (no_edges_no_edges_table grid.plain [] sample.Empty
              tables.Empty_fields eq_refl eq_refl eq_refl) as (H1 & H2 & H3).
  split; [exact H1 | split; [exact H2 | exact (proj1 (H3 eq_refl eq_refl))]].
Defined.

(** C3: for a type with at least one edge the edges table has the
    header Edge, Type, Inverse, BackRef, Relation, Unique, Optional,
    Comment and one row per edge in declaration order, each row being
    the edge's name, the target type's name, the inverse flag as text,
    the inverse edge's name, the relation kind's string form, the unique
    flag, the optional flag and the comment. When both tables render,
    the block holds the rendering of the fields table followed by the
    one of this edges table. *)
Theorem edges_table_rows (L : Library) (p : Sink) (t : Type_) (et : Table)
    (hasEdges : bool) :
  Edges t <> [] ->
  edges_table L t = Some (et, hasEdges) ->
  hasEdges = true
  /\ header et =
     ["Edge"; "Type"; "Inverse"; "BackRef"; "Relation"; "Unique"; "Optional";
      "Comment"]
  /\ rows et =
     map (fun e =>
            [ Edge_Name e;
              Edge_Type_Name e;
              FormatBool (Edge_IsInverse e);
              Edge_Inverse e;
              Rel_String (Edge_Rel_Type e);
              FormatBool (Edge_Unique e);
              FormatBool (Edge_Optional e);
              Edge_Comment e ]) (Edges t)
  /\ List.length (rows et) = List.length (Edges t)
  /\ forall ft,
       fields_table L t = Some ft ->
       snd (Render L ft) = false ->
       snd (Render L et) = false ->
       node L p t =
       WriteString p
         (block (Name t) (fst (Render L ft) ++ fst (Render L et))).
Proof.
  intros Hne Het.
  destruct (edges_table_spec L t et hasEdges Het) as (Hh & Hr & Hhe).
  assert (Htrue : hasEdges = true)
    by (rewrite Hhe; destruct (Edges t); [now elim Hne | reflexivity]).
  repeat split; [exact Htrue | exact Hh | exact Hr | |].
  - rewrite Hr. apply length_map.
  - intros ft Hft Hrf Hre. clear Hhe. subst hasEdges.
    now rewrite (node_success L p t ft et true Hft Hrf Het Hre).
Qed.

Lemma edges_table_rows_witness :
  header tables.User_edges = edges_header
  /\ rows tables.User_edges
     = [["posts"; "Post"; "false"; ""; "O2M"; "false"; "true"; ""]]
  /\ node grid.plain [] sample.User =
     WriteString []
       (block "User" (fst (Render grid.plain tables.User_fields)
                      ++ fst (Render grid.plain tables.User_edges))).
Proof.
  assert (Hne : Edges sample.User <> []) by discriminate.
  destruct (edges_table_rows grid.plain [] sample.User tables.User_edges true
              Hne eq_refl) as (_ & H2 & H3 & _ & H5).
  split; [exact H2 | split; [exact H3 |]].
  exact (H5 tables.User_fields eq_refl eq_refl eq_refl).
Defined.

(* ================================================================== *)
(** ** Column alignment *)

(** C4, as the code has it: after every appended row the alignment of
    the rows is set again from the accumulated list of per-cell
    decisions (right when the cell parses as an integer, left
    otherwise), which holds ten decisions per row in row order. The
    library reads the list by column position, so the final alignment of
    each of the first ten columns is the decision of the FIRST row
    processed; the eleventh column (Comment) gets the decision for the
    first cell of the second row, or none when there is one row only. *)
Theorem alignment_accumulates (L : Library) (t : Type_) (ft : Table) :
  fields_table L t = Some ft ->
  (forall pre f post,
      row_fields t = (pre ++ f :: post)%list ->
      exists tbl,
        fields_loop L (pre ++ [f]) (Header fields_header (table_options NewWriter)) []
        = Some (tbl, flat_map row_decisions (pre ++ [f]))
        /\ row_align tbl = flat_map row_decisions (pre ++ [f]))
  /\ row_align ft = flat_map (fun f => map align_of (cells f)) (row_fields t)
  /\ (forall f rest j,
        row_fields t = f :: rest -> (j < 10)%nat ->
        column_align ft j = Some (align_of (cell f j)))
  /\ (forall f g rest,
        row_fields t = f :: g :: rest ->
        column_align ft 10 = Some (align_of (cell g 0)))
  /\ (forall f, row_fields t = [f] -> column_align ft 10 = None)
  /\ (forall s, align_of s = tw.AlignRight <-> exists n, Atoi s = Some n).
Proof.
  intros Hft.
  destruct (fields_table_spec L t ft Hft) as (_ & _ & Hal).
  split; [|split; [exact Hal|]].
  - intros pre f post Hsplit.
    unfold fields_table in Hft. rewrite Hsplit in Hft.
    change (pre ++ f :: post)%list with (pre ++ [f] ++ post)%list in Hft.
    rewrite app_assoc, fields_loop_app in Hft.
    destruct (fields_loop L (pre ++ [f]) _ []) as [[tbl al]|] eqn:E;
      [|discriminate].
    apply fields_loop_spec in E. destruct E as (_ & _ & E3 & E4 & _).
    simpl in E3. subst al. exists tbl. split; [reflexivity|].
    apply E4. now destruct pre.
  - unfold column_align. rewrite Hal. repeat split.
    + intros f rest j Hrf Hj. rewrite Hrf.
      do 10 (destruct j as [|j]; [reflexivity|]). lia.
    + intros f g rest Hrf. now rewrite Hrf.
    + intros f Hrf. now rewrite Hrf.
    + apply align_of_right.
    + apply align_of_right.
Qed.

Lemma alignment_accumulates_witness :
  row_align tables.Mixed_fields
  = (row_decisions (sample.mkField "1" "int")
     ++ row_decisions (sample.mkField "label" "string"))%list
  /\ column_align tables.Mixed_fields 0
     = Some (align_of (cell (sample.mkField "1" "int") 0))
  /\ column_align tables.Mixed_fields 10
     = Some (align_of (cell (sample.mkField "label" "string") 0)).
Proof.
  destruct (alignment_accumulates grid.plain sample.Mixed tables.Mixed_fields
              eq_refl) as (_ & H2 & H3 & H4 & _).
  split; [exact H2 | split].
  - exact (H3 _ _ 0%nat eq_refl (Nat.lt_0_succ 9)).
  - exact (H4 _ _ _ eq_refl).
Defined.

(** C4 as stated fails: with the rows "1" then "label", the last row
    processed decides left for the Field column, and the final alignment
    of that column is right, the decision of the first row. *)
Lemma alignment_not_last_row :
  fields_table grid.plain sample.Mixed = Some tables.Mixed_fields
  /\ map Field_Name (row_fields sample.Mixed) = ["1"; "label"]
  /\ nth_error (row_decisions (sample.mkField "label" "string")) 0
     = Some tw.AlignLeft
  /\ column_align tables.Mixed_fields 0 = Some tw.AlignRight.
Proof. repeat split. Qed.

(* ================================================================== *)
(** ** The end of a block *)

(** C5, as the code has it: a block ends with exactly one newline (the
    byte before it is never a newline), and the last table line is not
    the end of the block: where the rendered tables end with a newline,
    the block ends with newline, tab, newline, so that a line holding a
    single tab follows the last table line. *)
Theorem block_end (L : Library) (p : Sink) (t : Type_) (ft et : Table)
    (hasEdges : bool) :
  fields_table L t = Some ft ->
  snd (Render L ft) = false ->
  edges_table L t = Some (et, hasEdges) ->
  hasEdges && snd (Render L et) = false ->
  node L p t = WriteString p (block (Name t) (tables_text L ft et hasEdges))
  /\ (exists body c,
        block (Name t) (tables_text L ft et hasEdges) = body ++ nl_s
        /\ last_byte body = Some c /\ c <> nl)
  /\ (ends_with nl_s (tables_text L ft et hasEdges) = true ->
      ends_with (nl_s ++ tab_s ++ nl_s)
        (block (Name t) (tables_text L ft et hasEdges)) = true).
Proof.
  intros Hft Hr He Hre. split; [now apply node_success|].
  generalize (tables_text L ft et hasEdges). intros out. unfold block. split.
  - exists (indent (Name t ++ ":" ++ nl_s ++ out)).
    rewrite last_byte_indent, last_byte_app.
    change (":" ++ nl_s ++ out) with (String ":" (String nl out)).
    rewrite !last_byte_cons.
    destruct (last_byte out) as [d|].
    + destruct (Ascii.eqb d nl) eqn:Hd.
      * exists tab. repeat split. discriminate.
      * exists d. repeat split. now apply Ascii.eqb_neq.
    + exists tab. repeat split. discriminate.
  - intros Hout. apply ends_with_elim in Hout. destruct Hout as [pre ->].
    replace (Name t ++ ":" ++ nl_s ++ pre ++ nl_s)
      with ((Name t ++ ":" ++ nl_s ++ pre) ++ nl_s)
      by (now rewrite !sapp_assoc).
    rewrite indent_app, indent_nl, sapp_assoc.
    change (nl_tab ++ nl_s) with (nl_s ++ tab_s ++ nl_s).
    apply ends_with_intro.
Qed.

Lemma block_end_witness :
  node grid.plain [] sample.Empty
  = WriteString []
      (block "Empty" (tables_text grid.plain tables.Empty_fields
                        (Header edges_header (table_options NewWriter)) false))
  /\ ends_with (nl_s ++ tab_s ++ nl_s)
       (block "Empty" (tables_text grid.plain tables.Empty_fields
                         (Header edges_header (table_options NewWriter)) false))
     = true.
Proof.
  destruct (block_end grid.plain [] sample.Empty tables.Empty_fields
              (Header edges_header (table_options NewWriter)) false
              eq_refl eq_refl eq_refl eq_refl) as (H1 & _ & H3).
  split; [exact H1 | exact (H3 eq_refl)].
Defined.

(** C5 as stated fails: the block of a type with one table ends with
    the table's last line, a newline, a tab and a newline, not with the
    last table line and the final newline. *)
Lemma block_has_trailing_tab :
  exists blk,
    Print grid.plain [] {| Nodes := [sample.Empty] |} = [blk]
    /\ ends_with (grid.rule (grid.widths tables.Empty_fields) ++ nl_s) blk = false
    /\ ends_with (grid.rule (grid.widths tables.Empty_fields)
                  ++ nl_s ++ tab_s ++ nl_s) blk = true.
Proof. eexists. split; [reflexivity | split; vm_compute; reflexivity]. Qed.

(* ================================================================== *)
(** ** The whole output *)

Lemma block_tab_indented (name out : string) : tab_indented (block name out).
Proof. unfold block. apply indent_lines. Qed.

(** The first line of a block is the name line. *)
Lemma block_first_line (name out : string) :
  no_nl name = true ->
  exists more, block name out = name ++ ":" ++ nl_s ++ more.
Proof.
  intros H. unfold block. rewrite indent_app, (indent_no_nl _ H).
  rewrite sapp_assoc. eexists. reflexivity.
Qed.

(** C6: the output of [Print] is the sequence of the blocks of the
    graph's types, and every block splits into lines (each closed by a
    newline) of which all but the first begin with a tab; the first is
    the line of the type's name. *)
Theorem lines_begin_with_tab (L : Library) (p : Sink) (g : Graph) :
  Print L p g = (p ++ Print L [] g)%list
  /\ Forall (fun blk =>
               tab_indented blk
               /\ exists t out,
                    In t (Nodes g) /\ blk = block (Name t) out
                    /\ (no_nl (Name t) = true ->
                        exists more, blk = Name t ++ ":" ++ nl_s ++ more))
       (Print L [] g).
Proof.
  split; [now rewrite !Print_flat_map|].
  rewrite Print_flat_map. simpl. apply Forall_forall. intros blk Hin.
  apply in_flat_map in Hin. destruct Hin as (t & Ht & Hblk).
  destruct (node_writes L t) as [E | [out E]]; rewrite E in Hblk;
    [contradiction|].
  destruct Hblk as [<- | []]. split; [apply block_tab_indented|].
  exists t, out. repeat split; [exact Ht|]. apply block_first_line.
Qed.

(** C7: a type that fails does not stop the loop: the types after it
    are processed from the sink the types before it left, and the sink
    ends up as if the failing type were not in the graph. *)
Theorem failure_does_not_abort (L : Library) (p : Sink) (ts1 ts2 : list Type_)
    (t : Type_) :
  node_failure L t ->
  Print L p {| Nodes := ts1 ++ t :: ts2 |}
  = Print L (Print L p {| Nodes := ts1 |}) {| Nodes := ts2 |}
  /\ Print L p {| Nodes := ts1 ++ t :: ts2 |}
     = (p ++ flat_map (node L []) ts1 ++ flat_map (node L []) ts2)%list.
Proof.
  intros Hfail.
  assert (E : Print L p {| Nodes := ts1 ++ t :: ts2 |}
              = Print L (Print L p {| Nodes := ts1 |}) {| Nodes := ts2 |}).
  { rewrite Print_app, Print_cons. now rewrite (node_failure_sink L _ t Hfail). }
  split; [exact E|].
  rewrite E, !Print_flat_map. simpl. now rewrite app_assoc.
Qed.

Lemma failure_does_not_abort_witness :
  Print grid.no_multiline [] {| Nodes := [sample.Bare; sample.Noted; sample.Empty] |}
  = Print grid.no_multiline
      (Print grid.no_multiline [] {| Nodes := [sample.Bare] |})
      {| Nodes := [sample.Empty] |}.
Proof.
  exact (proj1 (failure_does_not_abort grid.no_multiline [] [sample.Bare]
                  [sample.Empty] sample.Noted
                  (fields_append_failure grid.no_multiline sample.Noted eq_refl))).
Defined.

(** C8: [Print] writes the same chunks, hence the same bytes, whatever
    the sink it is given: two calls on one graph with two sinks add the
    same output to both. *)
Theorem Print_same_output (L : Library) (g : Graph) (w1 w2 : Sink) :
  exists out,
    Fprint L w1 g = (w1 ++ out)%list
    /\ Fprint L w2 g = (w2 ++ out)%list
    /\ sink_bytes (Fprint L w1 g) = sink_bytes w1 ++ sink_bytes out
    /\ sink_bytes (Fprint L w2 g) = sink_bytes w2 ++ sink_bytes out.
Proof.
  exists (flat_map (node L []) (Nodes g)). unfold Fprint.
  rewrite (Print_flat_map L g w1), (Print_flat_map L g w2), !sink_bytes_app.
  repeat split.
Qed.

(** C9: the boolean columns of a fields row (Unique, Optional,
    Nillable, Default, UpdateDefault, Immutable) and of an edges row
    (Inverse, Unique, Optional) hold the literal "true" or "false". *)
Theorem boolean_cells (f : Field) (e : Edge) :
  map (fun i => nth i fields_header "") [2; 3; 4; 5; 6; 7]%nat
  = ["Unique"; "Optional"; "Nillable"; "Default"; "UpdateDefault"; "Immutable"]
  /\ map (fun i => nth i (field_row f) "") [2; 3; 4; 5; 6; 7]%nat
     = map FormatBool
         [ Field_Unique f; Field_Optional f; Field_Nillable f; Field_Default f;
           Field_UpdateDefault f; Field_Immutable f ]
  /\ Forall (fun i => nth i (field_row f) "" = "true"
                      \/ nth i (field_row f) "" = "false")
       [2; 3; 4; 5; 6; 7]%nat
  /\ map (fun i => nth i edges_header "") [2; 5; 6]%nat
     = ["Inverse"; "Unique"; "Optional"]
  /\ map (fun i => nth i (edge_row e) "") [2; 5; 6]%nat
     = map FormatBool [Edge_IsInverse e; Edge_Unique e; Edge_Optional e]
  /\ Forall (fun i => nth i (edge_row e) "" = "true"
                      \/ nth i (edge_row e) "" = "false")
       [2; 5; 6]%nat.
Proof.
  repeat split.
  - repeat (apply Forall_cons; [apply FormatBool_literal|]). apply Forall_nil.
  - repeat (apply Forall_cons; [apply FormatBool_literal|]). apply Forall_nil.
Qed.

(** C10: when an [Append] or the [Render] of either table fails for a
    type, the sink is left exactly as it was: no chunk is written for
    the type, neither the name line nor a table already rendered into
    the buffer. *)
Theorem failure_writes_nothing (L : Library) (p : Sink) (t : Type_) :
  node_failure L t ->
  node L p t = p
  /\ Print L p {| Nodes := [t] |} = p
  /\ sink_bytes (Print L [] {| Nodes := [t] |}) = "".
Proof.
  intros H. rewrite Print_cons, Print_nil, Print_cons, Print_nil.
  rewrite !(node_failure_sink L _ t H). repeat split.
Qed.

Lemma failure_writes_nothing_witness :
  fst (Render (grid.at_most 1) tables.User_fields) <> ""
  /\ node (grid.at_most 1) ["earlier"] sample.User = ["earlier"].
Proof.
  split; [discriminate|].
  exact (proj1 (failure_writes_nothing (grid.at_most 1) ["earlier"] sample.User
                  (fields_render_failure (grid.at_most 1) sample.User
                     tables.User_fields eq_refl eq_refl))).
Defined.

(* ================================================================== *)
(** * Further properties of the printer *)

(** ** What the loops keep *)

Section Kept.

Variable L : Library.

Lemma Append_options (tbl tbl' : Table) (row : list string) :
  Append L tbl row = Some tbl' ->
  header_config tbl' = header_config tbl /\ symbols tbl' = symbols tbl.
Proof.
  unfold Append. destruct (append_fails L tbl row); [discriminate|].
  intros H. injection H as <-. split; reflexivity.
Qed.

Lemma fields_loop_options (fs : list Field) :
  forall tbl al tbl' al',
    fields_loop L fs tbl al = Some (tbl', al') ->
    header_config tbl' = header_config tbl /\ symbols tbl' = symbols tbl.
Proof.
  induction fs as [|f fs IH]; intros tbl al tbl' al'; cbn [fields_loop].
  - intros H. injection H as <- <-. split; reflexivity.
  - destruct (Append L tbl (field_row f)) as [tbl1|] eqn:EA; [|discriminate].
    apply Append_options in EA. destruct EA as [E1 E2].
    intros H. apply IH in H. cbn [header_config symbols WithRowAlignmentConfig] in H.
    destruct H as [H1 H2]. split; congruence.
Qed.

Lemma edges_loop_options (es : list Edge) :
  forall tbl he tbl' he',
    edges_loop L es tbl he = Some (tbl', he') ->
    header_config tbl' = header_config tbl
    /\ symbols tbl' = symbols tbl
    /\ row_align tbl' = row_align tbl.
Proof.
  induction es as [|e es IH]; intros tbl he tbl' he'; cbn [edges_loop].
  - intros H. injection H as <- <-. repeat split.
  - destruct (Append L tbl (edge_row e)) as [tbl1|] eqn:EA; [|discriminate].
    destruct (Append_options _ _ _ EA) as [E1 E2].
    apply Append_inv in EA. destruct EA as (_ & _ & _ & E3).
    intros H. apply IH in H. destruct H as (H1 & H2 & H3).
    repeat split; congruence.
Qed.

(** What [node] writes for one type, by whether the type succeeds. *)
Lemma node_ok_spec (t : Type_) :
  node L [] t = if node_ok L t then [type_block L t] else [].
Proof.
  unfold node, node_ok, type_block, tables_text.
  destruct (fields_table L t) as [ft|]; [|reflexivity].
  destruct (Render L ft) as [o1 e1]. destruct e1; [reflexivity|].
  destruct (edges_table L t) as [[et he]|]; [|reflexivity].
  destruct he.
  - destruct (Render L et) as [o2 e2]. destruct e2; [reflexivity|].
    cbn. unfold block. now rewrite !sapp_assoc.
  - cbn. unfold block. now rewrite !sapp_assoc, sapp_nil_r.
Qed.

End Kept.

(* ------------------------------------------------------------------ *)
(** ** Rows and options of the tables *)

(** X1: a type without identifier field ([ID] is nil) has one body row
    per declared field, in declaration order, and no other row. *)
Theorem fields_rows_without_id (L : Library) (t : Type_) (ft : Table) :
  ID t = None ->
  fields_table L t = Some ft ->
  rows ft = map field_row (Fields t)
  /\ List.length (rows ft) = List.length (Fields t).
Proof.
  intros Hid Hft.
  destruct (fields_table_spec L t ft Hft) as (_ & Hr & _).
  unfold row_fields in Hr. rewrite Hid in Hr. cbn [app] in Hr.
  split; [exact Hr | rewrite Hr; apply length_map].
Qed.

Lemma fields_rows_without_id_witness :
  rows tables.Mixed_fields = map field_row (Fields sample.Mixed)
  /\ List.length (rows tables.Mixed_fields) = 2%nat.
Proof.
  exact (fields_rows_without_id grid.plain sample.Mixed tables.Mixed_fields
           eq_refl eq_refl).
Defined.

(** X2: every row handed to [Append] is as wide as the header of its
    table: eleven cells in the fields table, eight in the edges table. *)
Theorem rows_as_wide_as_header (L : Library) (t : Type_) (ft et : Table)
    (hasEdges : bool) :
  fields_table L t = Some ft ->
  edges_table L t = Some (et, hasEdges) ->
  Forall (fun r => List.length r = List.length (header ft)) (rows ft)
  /\ List.length (header ft) = 11%nat
  /\ Forall (fun r => List.length r = List.length (header et)) (rows et)
  /\ List.length (header et) = 8%nat.
Proof.
  intros Hft Het.
  destruct (fields_table_spec L t ft Hft) as (Hh & Hr & _).
  destruct (edges_table_spec L t et hasEdges Het) as (Hh' & Hr' & _).
  rewrite Hh, Hr, Hh', Hr'. repeat split.
  - apply Forall_forall. intros r Hin. apply in_map_iff in Hin.
    now destruct Hin as (f & <- & _).
  - apply Forall_forall. intros r Hin. apply in_map_iff in Hin.
    now destruct Hin as (e & <- & _).
Qed.

Lemma rows_as_wide_as_header_witness :
  Forall (fun r => List.length r = List.length (header tables.User_fields))
    (rows tables.User_fields)
  /\ List.length (header tables.User_fields) = 11%nat
  /\ Forall (fun r => List.length r = List.length (header tables.User_edges))
       (rows tables.User_edges)
  /\ List.length (header tables.User_edges) = 8%nat.
Proof.
  exact (rows_as_wide_as_header grid.plain sample.User tables.User_fields
           tables.User_edges true eq_refl eq_refl).
Defined.

(** X3: both tables reach [Render] with the options of lines 51-66 and
    106-119 (ASCII symbols, header cells padded by one space on each
    side and not reformatted): no [Append] and no alignment update
    changes them. The edges table never gets a per-column alignment. *)
Theorem tables_keep_options (L : Library) (t : Type_) (ft et : Table)
    (hasEdges : bool) :
  fields_table L t = Some ft ->
  edges_table L t = Some (et, hasEdges) ->
  symbols ft = tw.StyleASCII
  /\ header_config ft
     = Some {| tw.Padding_Left := " "; tw.Padding_Right := " ";
               tw.AutoFormat := false |}
  /\ symbols et = symbols ft
  /\ header_config et = header_config ft
  /\ row_align et = [].
Proof.
  intros Hft Het. unfold fields_table in Hft.
  destruct (fields_loop L (row_fields t) _ []) as [[tbl al]|] eqn:E;
    [|discriminate].
  injection Hft as <-. apply fields_loop_options in E. destruct E as [E1 E2].
  unfold edges_table in Het. apply edges_loop_options in Het.
  destruct Het as (H1 & H2 & H3).
  rewrite E1, E2, H1, H2, H3. repeat split.
Qed.

Lemma tables_keep_options_witness :
  symbols tables.User_fields = tw.StyleASCII
  /\ header_config tables.User_fields
     = Some {| tw.Padding_Left := " "; tw.Padding_Right := " ";
               tw.AutoFormat := false |}
  /\ symbols tables.User_edges = symbols tables.User_fields
  /\ header_config tables.User_edges = header_config tables.User_fields
  /\ row_align tables.User_edges = [].
Proof.
  exact (tables_keep_options grid.plain sample.User tables.User_fields
           tables.User_edges true eq_refl eq_refl).
Defined.

(** X4: for each of the ten looked-up columns exactly one field of the
    struct matches the closure of lines 76-79, so [FieldByNameFunc]
    never returns the zero Value ([Interface] does not panic) and the
    cell is that field, stringified. *)
Theorem lookup_unique (f : Field) (i : nat) :
  (i < 10)%nat ->
  exists name v,
    filter (fun kv => column_match i (fst kv)) (ValueOf f) = [(name, v)]
    /\ name = (if Nat.eqb i 0 then "Name" else nth i fields_header "")
    /\ FieldByNameFunc (ValueOf f) (column_match i) = Some v
    /\ cell f i = Sprint v.
Proof.
  intros H.
  do 10 (destruct i as [|i]; [do 2 eexists; repeat split|]). lia.
Qed.

Lemma lookup_unique_witness :
  exists name v,
    filter (fun kv => column_match 0 (fst kv)) (ValueOf sample.id) = [(name, v)]
    /\ name = "Name"
    /\ FieldByNameFunc (ValueOf sample.id) (column_match 0) = Some v
    /\ cell sample.id 0 = Sprint v.
Proof. exact (lookup_unique sample.id 0 (Nat.lt_0_succ 9)). Defined.

(* ------------------------------------------------------------------ *)
(** ** Integers and booleans in the alignment decision *)

Lemma digits_value_step (c : ascii) (s : string) (acc : Z) :
  is_digit c = true ->
  digits_value (String c s) acc
  = digits_value s (10 * acc + (Z.of_nat (nat_of_ascii c) - 48))%Z.
Proof. intros H. cbn [digits_value]. now rewrite H. Qed.

(** Replaces the code of a literal digit by its value. *)
Ltac digit_value :=
  match goal with
  | |- context [Z.of_nat (nat_of_ascii ?c)] =>
      let v := eval vm_compute in (Z.of_nat (nat_of_ascii c)) in
      change (Z.of_nat (nat_of_ascii c)) with v
  end.

(** Reading the digits of a decimal numeral from a positive
    accumulator is the library's [Pos.of_uint_acc]. *)
Lemma digits_value_acc (d : Decimal.uint) :
  forall acc : positive,
    digits_value (NilEmpty.string_of_uint d) (Z.pos acc)
    = Some (Z.pos (Pos.of_uint_acc d acc)).
Proof.
  induction d; intros acc; cbn [NilEmpty.string_of_uint Pos.of_uint_acc];
    [reflexivity|..];
    rewrite digits_value_step by reflexivity; rewrite <- IHd; f_equal;
    digit_value; lia.
Qed.

Lemma digits_value_uint (d : Decimal.uint) :
  digits_value (NilEmpty.string_of_uint d) 0 = Some (Z.of_N (Pos.of_uint d)).
Proof.
  induction d; cbn [NilEmpty.string_of_uint Pos.of_uint];
    [reflexivity|..];
    rewrite digits_value_step by reflexivity; digit_value;
    try exact IHd; apply digits_value_acc.
Qed.

Lemma uint_string_digit (d : Decimal.uint) :
  d <> Decimal.Nil ->
  exists c s,
    NilZero.string_of_uint d = String c s
    /\ is_digit c = true
    /\ NilZero.string_of_uint d = NilEmpty.string_of_uint d.
Proof.
  destruct d; [now intros [] |..]; intros _; do 2 eexists; repeat split.
Qed.

(** [Atoi] on a text that starts with a digit, after an optional minus
    sign. *)
Lemma Atoi_digits (c : ascii) (s : string) (neg : bool) :
  is_digit c = true ->
  Atoi (if neg then String "-" (String c s) else String c s)
  = match digits_value (String c s) 0 with
    | Some n =>
        let v := if neg then (- n)%Z else n in
        if ((minInt <=? v) && (v <=? maxInt))%Z then Some v else None
    | None => None
    end.
Proof.
  intros H. destruct neg; [reflexivity|].
  destruct c as [[] [] [] [] [] [] [] []]; try discriminate H; reflexivity.
Qed.

(** X5: [Atoi] reads back what [fmt.Sprint] prints for a Go [int]:
    for every 64-bit [n], [Atoi (Sprint n) = n] without error, so a
    cell that holds an integer attribute is decided right-aligned. *)
Theorem int_cell_right (n : Z) :
  (minInt <= n <= maxInt)%Z ->
  Atoi (Sprint (VInt n)) = Some n
  /\ align_of (Sprint (VInt n)) = tw.AlignRight.
Proof.
  intros Hn.
  assert (E : Atoi (Itoa n) = Some n).
  { unfold Itoa. destruct Hn as [H1 H2]. apply Z.leb_le in H1, H2.
    destruct n as [|p|p]; [reflexivity|..];
      cbn [Z.to_int NilZero.string_of_int];
      destruct (uint_string_digit (Pos.to_uint p) (Unsigned.to_uint_nonnil p))
        as (c & s & E & Hc & E').
    - rewrite E, (Atoi_digits c s false Hc), <- E, E', digits_value_uint.
      rewrite Unsigned.of_to. cbn [Z.of_N]. cbv zeta. now rewrite H1, H2.
    - rewrite E, (Atoi_digits c s true Hc), <- E, E', digits_value_uint.
      rewrite Unsigned.of_to. cbn [Z.of_N Z.opp]. cbv zeta.
      now rewrite H1, H2. }
  cbn [Sprint]. unfold align_of. now rewrite E.
Qed.

Lemma int_cell_right_witness :
  Atoi (Sprint (VInt (-42))) = Some (-42)%Z
  /\ align_of (Sprint (VInt (-42))) = tw.AlignRight.
Proof.
  apply (int_cell_right (-42)). unfold minInt, maxInt. lia.
Defined.

Lemma align_of_FormatBool (b : bool) : align_of (FormatBool b) = tw.AlignLeft.
Proof. now destruct b. Qed.

(** X6: the six boolean columns of the fields table (Unique to
    Immutable, positions 2 to 7) always end left-aligned, whatever the
    fields are: "true" and "false" do not parse as integers, and the
    entries the library reads for these columns are decisions on
    boolean cells. *)
Theorem boolean_columns_left (L : Library) (t : Type_) (ft : Table) :
  fields_table L t = Some ft ->
  row_fields t <> [] ->
  Forall (fun j => column_align ft j = Some tw.AlignLeft) [2; 3; 4; 5; 6; 7]%nat.
Proof.
  intros Hft Hne.
  destruct (fields_table_spec L t ft Hft) as (_ & _ & Hal).
  destruct (row_fields t) as [|f rest]; [now elim Hne|].
  unfold column_align. rewrite Hal.
  repeat (apply Forall_cons;
          [exact (f_equal Some (align_of_FormatBool _))|]).
  apply Forall_nil.
Qed.

Lemma boolean_columns_left_witness :
  Forall (fun j => column_align tables.User_fields j = Some tw.AlignLeft)
    [2; 3; 4; 5; 6; 7]%nat.
Proof.
  apply (boolean_columns_left grid.plain sample.User tables.User_fields eq_refl).
  discriminate.
Defined.

(* ------------------------------------------------------------------ *)
(** ** The chunks of a graph *)

(** X7: what [Print] adds to the sink is, in the graph's order, the
    block of every type that does not fail, one chunk each; so it
    never writes more chunks than the graph has types. *)
Theorem Print_blocks (L : Library) (p : Sink) (g : Graph) :
  Print L p g = (p ++ map (type_block L) (filter (node_ok L) (Nodes g)))%list
  /\ (List.length (Print L [] g) <= List.length (Nodes g))%nat.
Proof.
  assert (E : flat_map (node L []) (Nodes g)
              = map (type_block L) (filter (node_ok L) (Nodes g))).
  { induction (Nodes g) as [|t ts IH]; [reflexivity|].
    cbn [flat_map filter]. rewrite node_ok_spec, IH.
    now destruct (node_ok L t). }
  rewrite !Print_flat_map, E. split; [reflexivity|].
  cbn [app]. rewrite length_map. apply filter_length_le.
Qed.

(** X8: with a library whose [Append] and [Render] never report an
    error, every type gets exactly one block, in the graph's order. *)
Theorem Print_all_types (L : Library) (g : Graph) :
  (forall tbl row, append_fails L tbl row = false) ->
  (forall tbl, snd (render L tbl) = false) ->
  Print L [] g = map (type_block L) (Nodes g)
  /\ List.length (Print L [] g) = List.length (Nodes g).
Proof.
  intros Happ Hren.
  assert (Hok : forall t, node_ok L t = true).
  { intros t. unfold node_ok.
    destruct (fields_table_total L t Happ) as [ft ->].
    unfold edges_table.
    destruct (edges_loop_total L Happ (Edges t)
                (Header edges_header (table_options NewWriter)) false)
      as [[et he] ->].
    unfold Render. rewrite !Hren. now rewrite andb_false_r. }
  assert (E : Print L [] g = map (type_block L) (Nodes g)).
  { rewrite Print_flat_map. cbn [app].
    induction (Nodes g) as [|t ts IH]; [reflexivity|].
    cbn [flat_map map]. now rewrite node_ok_spec, Hok, IH. }
  split; [exact E | rewrite E; apply length_map].
Qed.

Lemma Print_all_types_witness :
  Print grid.plain [] sample.graph
  = map (type_block grid.plain) [sample.User; sample.Post; sample.Empty]
  /\ List.length (Print grid.plain [] sample.graph) = 3%nat.
Proof.
  apply (Print_all_types grid.plain sample.graph); intros; reflexivity.
Defined.

(** X9: printing the types [ts1 ++ ts2] is printing [ts1] and then
    [ts2]: the chunks of the second part do not depend on the first
    (no alignment, buffer or table survives from one type to the
    next). *)
Theorem Print_concat (L : Library) (p : Sink) (ts1 ts2 : list Type_) :
  Print L p {| Nodes := ts1 ++ ts2 |}
  = (Print L p {| Nodes := ts1 |} ++ Print L [] {| Nodes := ts2 |})%list.
Proof.
  rewrite !Print_flat_map. cbn [Nodes app].
  now rewrite flat_map_app, app_assoc.
Qed.

Lemma last_byte_block (name out : string) : last_byte (block name out) = Some nl.
Proof. unfold block. now rewrite last_byte_app. Qed.

Lemma last_byte_chunks (chunks : list string) :
  Forall (fun blk => last_byte blk = Some nl) chunks ->
  chunks = [] \/ last_byte (sink_bytes chunks) = Some nl.
Proof.
  induction 1 as [|blk chunks Hblk _ IH]; [now left|]. right.
  change (blk :: chunks) with ([blk] ++ chunks)%list.
  rewrite sink_bytes_app, last_byte_app.
  destruct IH as [-> | ->]; [exact Hblk | reflexivity].
Qed.

(** X10: whatever the library renders, the bytes [Print] gives a
    fresh sink are empty (no type succeeded) or end with a newline. *)
Theorem output_ends_with_newline (L : Library) (g : Graph) :
  Print L [] g = [] \/ last_byte (sink_bytes (Print L [] g)) = Some nl.
Proof.
  apply last_byte_chunks. rewrite Print_flat_map. cbn [app].
  apply Forall_forall. intros blk Hin.
  apply in_flat_map in Hin. destruct Hin as (t & _ & Hblk).
  destruct (node_writes L t) as [E | [out E]]; rewrite E in Hblk;
    [contradiction|].
  destruct Hblk as [<- | []]. apply last_byte_block.
Qed.

(* ------------------------------------------------------------------ *)
(** ** The indentation *)

(** X11: the indentation of line 147 loses nothing: two buffers with
    the same indented text are the same buffer. *)
Theorem indent_injective (a b : string) : indent a = indent b -> a = b.
Proof.
  unfold indent. revert b.
  induction a as [|c a IH]; intros [|d b]; cbn [ReplaceAll].
  - reflexivity.
  - destruct (Ascii.eqb d nl); discriminate.
  - destruct (Ascii.eqb c nl); discriminate.
  - destruct (Ascii.eqb c nl) eqn:Hc, (Ascii.eqb d nl) eqn:Hd; cbn [append nl_tab].
    + apply Ascii.eqb_eq in Hc, Hd. subst c d.
      intros H. injection H as H. now rewrite (IH b H).
    + intros H. injection H as H _. subst d.
      now rewrite Ascii.eqb_refl in Hd.
    + intros H. injection H as H _. subst c.
      now rewrite Ascii.eqb_refl in Hc.
    + intros H. injection H as -> H. now rewrite (IH b H).
Qed.

Lemma indent_injective_witness : "a" ++ nl_s ++ "b" = String "a" (String nl "b").
Proof. exact (indent_injective ("a" ++ nl_s ++ "b") (String "a" (String nl "b")) eq_refl). Defined.

(** X12: the indentation adds exactly one byte for every newline of
    the buffer and no newline of its own: the indented text has the
    buffer's newlines and is longer by their number. *)
Theorem indent_length (b : string) :
  String.length (indent b) = (String.length b + count_nl b)%nat
  /\ count_nl (indent b) = count_nl b.
Proof.
  unfold indent. induction b as [|c b (IH1 & IH2)]; [split; reflexivity|].
  cbn [ReplaceAll count_nl String.length].
  destruct (Ascii.eqb c nl) eqn:Hc; cbn [append nl_tab String.length count_nl].
  - rewrite Ascii.eqb_refl. change (Ascii.eqb tab nl) with false.
    rewrite IH1, IH2. split; [lia | reflexivity].
  - rewrite Hc, IH1, IH2. split; reflexivity.
Qed.

(* ------------------------------------------------------------------ *)
(** ** Cells under their header *)

(** X13: in a fields row every cell stands under the header column
    that names its attribute: the reflective lookup by header name puts
    the field's name under Field, the string form of its type under
    Type, each flag under its own name, the struct tag and the
    validators under theirs, and the comment last. *)
Theorem field_row_by_header (f : Field) :
  combine fields_header (field_row f) =
  [ ("Field", Field_Name f);
    ("Type", TypeInfo_String (Field_Type f));
    ("Unique", FormatBool (Field_Unique f));
    ("Optional", FormatBool (Field_Optional f));
    ("Nillable", FormatBool (Field_Nillable f));
    ("Default", FormatBool (Field_Default f));
    ("UpdateDefault", FormatBool (Field_UpdateDefault f));
    ("Immutable", FormatBool (Field_Immutable f));
    ("StructTag", Field_StructTag f);
    ("Validators", Sprint (Field_Validators f));
    ("Comment", Field_Comment f) ].
Proof. reflexivity. Qed.
